(** * License client: reconciliation of a remote license with a local cache

    A shallow embedding of [packages/lib/server-only/license/license-client.ts]
    (class [LicenseClient]) together with the properties its specification
    states about it.

    Layout of the development:
    - [Text]      characters, digits and quoting of JSON strings;
    - [Json]      the JSON tree, [JSON.stringify (v, null, 2)] and [JSON.parse];
    - [DateTime]  [Date] values, [toISOString] and the parsing of such strings;
    - [License]   the records of [types/license] and their schema;
    - [Effects]   the world the client runs in and the monad of its methods;
    - [Client]    the methods of [LicenseClient], one definition per method;
    - [Scenario]  concrete worlds, for the examples;
    - the lemmas: text, JSON, dates and schema first, then the cache store,
      one cycle, the entry points, and the examples on the scenarios. *)

From Stdlib Require Import Ascii String NArith Bool.
From stdpp Require Import gmap strings list fin_maps.

Local Open Scope char_scope.

(* ===================================================================== *)
(** ** Text: characters and quoted strings *)
(* ===================================================================== *)

Module Text.

(** A JavaScript string is represented by the bytes of its UTF-8 encoding,
    which is also what [fs.writeFile (_, _, 'utf-8')] stores. *)
Definition chars (s : string) : list ascii := list_ascii_of_string s.
Definition text (l : list ascii) : string := string_of_list_ascii l.

Definition nl : ascii := "010".
Definition dquote : ascii := "034".
Definition bslash : ascii := "092".
Definition code (c : ascii) : N := N_of_ascii c.

Definition is_ws (c : ascii) : bool :=
  (c =? " ") || (c =? "009") || (c =? "010") || (c =? "013").

Fixpoint skip_ws (s : list ascii) : list ascii :=
  match s with
  | c :: r => if is_ws c then skip_ws r else s
  | [] => []
  end.

Definition is_digit (c : ascii) : bool :=
  (48 <=? code c)%N && (code c <=? 57)%N.

Definition digit_val (c : ascii) : nat := N.to_nat (code c) - 48.
Definition digit_char (n : nat) : ascii := ascii_of_nat (48 + n).

(** [pad_digits w n]: the last [w] decimal digits of [n], zero padded. *)
Fixpoint pad_digits (w n : nat) : list ascii :=
  match w with
  | O => []
  | S w' => pad_digits w' (n / 10) ++ [digit_char (n mod 10)]
  end.

(** Value of a run of decimal digits, most significant first. *)
Fixpoint digits_val_from (acc : nat) (l : list ascii) : option nat :=
  match l with
  | [] => Some acc
  | c :: r => if is_digit c then digits_val_from (10 * acc + digit_val c) r else None
  end.
Definition digits_val (l : list ascii) : option nat := digits_val_from 0 l.

Definition hex_char (n : N) : ascii :=
  if (n <? 10)%N then ascii_of_N (48 + n) else ascii_of_N (87 + n).

Definition hex_val (c : ascii) : option N :=
  let n := code c in
  if (48 <=? n)%N && (n <=? 57)%N then Some (n - 48)%N
  else if (97 <=? n)%N && (n <=? 102)%N then Some (n - 87)%N
  else if (65 <=? n)%N && (n <=? 70)%N then Some (n - 55)%N
  else None.

(** UTF-8 bytes of a code unit given by a [\uXXXX] escape (one, two or
    three bytes; surrogate pairs are not recombined). *)
Definition utf8 (n : N) : list ascii :=
  if (n <? 128)%N then [ascii_of_N n]
  else if (n <? 2048)%N then
    [ascii_of_N (192 + n / 64); ascii_of_N (128 + n mod 64)]
  else
    [ascii_of_N (224 + n / 4096); ascii_of_N (128 + (n / 64) mod 64);
     ascii_of_N (128 + n mod 64)].

(** [QuoteJSONString]: the escapes [JSON.stringify] produces. *)
Definition escape_char (c : ascii) : list ascii :=
  if c =? dquote then [bslash; dquote]
  else if c =? bslash then [bslash; bslash]
  else if c =? "008" then [bslash; "b"]
  else if c =? "009" then [bslash; "t"]
  else if c =? "010" then [bslash; "n"]
  else if c =? "012" then [bslash; "f"]
  else if c =? "013" then [bslash; "r"]
  else if (code c <? 32)%N then
    [bslash; "u"; "0"; "0"; hex_char (code c / 16); hex_char (code c mod 16)]
  else [c].

Fixpoint escape (s : list ascii) : list ascii :=
  match s with
  | [] => []
  | c :: r => escape_char c ++ escape r
  end.

Definition quote (s : string) : list ascii :=
  dquote :: escape (chars s) ++ [dquote].

Definition unescape_simple (e : ascii) : option ascii :=
  if e =? dquote then Some dquote
  else if e =? bslash then Some bslash
  else if e =? "/" then Some "/"
  else if e =? "b" then Some "008"
  else if e =? "f" then Some "012"
  else if e =? "n" then Some "010"
  else if e =? "r" then Some "013"
  else if e =? "t" then Some "009"
  else None.

Definition hex4 (a b c d : ascii) : option N :=
  x ← hex_val a; y ← hex_val b; z ← hex_val c; w ← hex_val d;
  Some (((x * 16 + y) * 16 + z) * 16 + w)%N.

(** The characters of a JSON string up to its closing quote; the opening
    quote has been read.  A raw control character is a syntax error. *)
Fixpoint parse_string_body (s : list ascii) : option (list ascii * list ascii) :=
  match s with
  | [] => None
  | c :: r =>
    if c =? dquote then Some ([], r)
    else if c =? bslash then
      match r with
      | [] => None
      | e :: r1 =>
        if e =? "u" then
          match r1 with
          | h1 :: h2 :: h3 :: h4 :: r2 =>
            n ← hex4 h1 h2 h3 h4;
            '(body, rest) ← parse_string_body r2;
            Some (utf8 n ++ body, rest)
          | _ => None
          end
        else
          c' ← unescape_simple e;
          '(body, rest) ← parse_string_body r1;
          Some (c' :: body, rest)
      end
    else if (code c <? 32)%N then None
    else
      '(body, rest) ← parse_string_body r;
      Some (c :: body, rest)
  end.

End Text.

(* ===================================================================== *)
(** ** Json: the tree, the printer and the parser *)
(* ===================================================================== *)

Module Json.
Import Text.

(** A number keeps its lexeme: no claim computes with it. *)
#[warnings="-register-all"]
Inductive json : Type :=
| JNull
| JBool (b : bool)
| JNumber (lexeme : string)
| JString (s : string)
| JArray (items : list json)
| JObject (members : list (string * json)).

(** Property lookup on a parsed object: of two members with one key the
    later one wins, as in [JSON.parse]. *)
Fixpoint get (k : string) (members : list (string * json)) : option json :=
  match members with
  | [] => None
  | (k', v) :: r =>
    match get k r with
    | Some v' => Some v'
    | None => if String.eqb k k' then Some v else None
    end
  end.

Definition indent (n : nat) : list ascii := repeat " " n.

(** Lines separated by a comma and a line break. *)
Fixpoint join_lines (ls : list (list ascii)) : list ascii :=
  match ls with
  | [] => []
  | [x] => x
  | x :: ls' => x ++ "," :: nl :: join_lines ls'
  end.

(** [JSON.stringify (v, null, 2)] on a tree, at indentation [ind]. *)
Fixpoint print (ind : nat) (j : json) : list ascii :=
  match j with
  | JNull => chars "null"
  | JBool true => chars "true"
  | JBool false => chars "false"
  | JNumber n => chars n
  | JString s => quote s
  | JArray [] => chars "[]"
  | JArray items =>
    "[" :: nl ::
    join_lines (List.map (λ v, indent (ind + 2) ++ print (ind + 2) v) items)
    ++ nl :: indent ind ++ ["]"]
  | JObject [] => chars "{}"
  | JObject members =>
    "{" :: nl ::
    join_lines (List.map (λ kv, indent (ind + 2) ++ quote (fst kv) ++
                                [":"; " "] ++ print (ind + 2) (snd kv)) members)
    ++ nl :: indent ind ++ ["}"]
  end.

Definition JSON_stringify (j : json) : string := text (print 0 j).

(** The lines of [print] for one member and for one item. *)
Definition member_line (ind : nat) (kv : string * json) : list ascii :=
  indent (ind + 2) ++ quote (fst kv) ++ [":"; " "] ++ print (ind + 2) (snd kv).

Definition item_line (ind : nat) (v : json) : list ascii :=
  indent (ind + 2) ++ print (ind + 2) v.

(** The trees without numbers: all that the client writes. *)
Fixpoint plain (j : json) : bool :=
  match j with
  | JNumber _ => false
  | JArray xs => forallb plain xs
  | JObject ms => forallb (λ kv, plain (snd kv)) ms
  | _ => true
  end.

(** Number lexemes: [-? int frac? exp?]. *)
Fixpoint take_digits (s : list ascii) : list ascii * list ascii :=
  match s with
  | c :: r => if is_digit c then let '(d, r') := take_digits r in (c :: d, r')
              else ([], s)
  | [] => ([], [])
  end.

Definition parse_int (s : list ascii) : option (list ascii * list ascii) :=
  match s with
  | c :: r =>
    if c =? "0" then Some (["0"], r)
    else if is_digit c then let '(d, r') := take_digits r in Some (c :: d, r')
    else None
  | [] => None
  end.

Definition parse_frac (s : list ascii) : option (list ascii * list ascii) :=
  match s with
  | c :: r =>
    if c =? "." then
      match take_digits r with
      | ([], _) => None
      | (d, r') => Some (c :: d, r')
      end
    else Some ([], s)
  | [] => Some ([], [])
  end.

Definition parse_exp (s : list ascii) : option (list ascii * list ascii) :=
  match s with
  | c :: r =>
    if (c =? "e") || (c =? "E") then
      let '(sign, r1) :=
        match r with
        | c1 :: r' => if (c1 =? "+") || (c1 =? "-") then ([c1], r') else ([], r)
        | [] => ([], r)
        end in
      match take_digits r1 with
      | ([], _) => None
      | (d, r2) => Some (c :: sign ++ d, r2)
      end
    else Some ([], s)
  | [] => Some ([], [])
  end.

Definition parse_number (s : list ascii) : option (json * list ascii) :=
  let '(sign, s1) :=
    match s with
    | c :: r => if c =? "-" then ([c], r) else ([], s)
    | [] => ([], s)
    end in
  '(i, s2) ← parse_int s1;
  '(f, s3) ← parse_frac s2;
  '(e, s4) ← parse_exp s3;
  Some (JNumber (text (sign ++ i ++ f ++ e)), s4).

(** [expect w s]: the input [s] without its prefix [w]. *)
Fixpoint expect (w s : list ascii) : option (list ascii) :=
  match w, s with
  | [], _ => Some s
  | a :: w', b :: s' => if a =? b then expect w' s' else None
  | _ :: _, [] => None
  end.

(** Recursive descent; every call of [parse_value] below another one has
    read at least one character, so fuel above the length of the input is
    never exhausted. *)
Fixpoint parse_value (fuel : nat) (s : list ascii) {struct fuel}
  : option (json * list ascii) :=
  match fuel with
  | O => None
  | S fuel' =>
    match skip_ws s with
    | [] => None
    | c :: r =>
      if c =? "{" then
        match skip_ws r with
        | c1 :: r1 =>
          if c1 =? "}" then Some (JObject [], r1)
          else '(ms, r2) ← parse_members fuel' (c1 :: r1); Some (JObject ms, r2)
        | [] => None
        end
      else if c =? "[" then
        match skip_ws r with
        | c1 :: r1 =>
          if c1 =? "]" then Some (JArray [], r1)
          else '(xs, r2) ← parse_items fuel' (c1 :: r1); Some (JArray xs, r2)
        | [] => None
        end
      else if c =? dquote then
        '(body, r1) ← parse_string_body r; Some (JString (text body), r1)
      else if c =? "n" then r1 ← expect (chars "ull") r; Some (JNull, r1)
      else if c =? "t" then r1 ← expect (chars "rue") r; Some (JBool true, r1)
      else if c =? "f" then r1 ← expect (chars "alse") r; Some (JBool false, r1)
      else parse_number (c :: r)
    end
  end
with parse_members (fuel : nat) (s : list ascii) {struct fuel}
  : option (list (string * json) * list ascii) :=
  match fuel with
  | O => None
  | S fuel' =>
    match skip_ws s with
    | c :: r =>
      if c =? dquote then
        '(k, r1) ← parse_string_body r;
        match skip_ws r1 with
        | c2 :: r2 =>
          if c2 =? ":" then
            '(v, r3) ← parse_value fuel' r2;
            match skip_ws r3 with
            | c4 :: r4 =>
              if c4 =? "," then
                '(ms, r5) ← parse_members fuel' r4; Some ((text k, v) :: ms, r5)
              else if c4 =? "}" then Some ([(text k, v)], r4)
              else None
            | [] => None
            end
          else None
        | [] => None
        end
      else None
    | [] => None
    end
  end
with parse_items (fuel : nat) (s : list ascii) {struct fuel}
  : option (list json * list ascii) :=
  match fuel with
  | O => None
  | S fuel' =>
    '(v, r1) ← parse_value fuel' s;
    match skip_ws r1 with
    | c2 :: r2 =>
      if c2 =? "," then '(xs, r3) ← parse_items fuel' r2; Some (v :: xs, r3)
      else if c2 =? "]" then Some ([v], r2)
      else None
    | [] => None
    end
  end.

(** [JSON.parse]: one value, then nothing but white space.  [None] stands
    for the [SyntaxError] it throws. *)
Definition JSON_parse (s : string) : option json :=
  '(j, r) ← parse_value (S (S (String.length s))) (chars s);
  match skip_ws r with
  | [] => Some j
  | _ :: _ => None
  end.

(** [parses_back j]: printed at any indentation and followed by anything,
    [j] is read back, with what follows left over. *)
Definition parses_back (j : json) : Prop :=
  ∀ ind fuel rest, length (print ind j) < fuel →
    parse_value fuel (print ind j ++ rest) = Some (j, rest).

(** Induction on a tree with the hypothesis on every item and member. *)
Section json_induction.
Variable P : json → Prop.
Hypothesis Hnull : P JNull.
Hypothesis Hbool : ∀ b, P (JBool b).
Hypothesis Hnum : ∀ n, P (JNumber n).
Hypothesis Hstr : ∀ s, P (JString s).
Hypothesis Harr : ∀ xs, Forall P xs → P (JArray xs).
Hypothesis Hobj : ∀ ms, Forall (λ kv, P (snd kv)) ms → P (JObject ms).

Fixpoint json_nested_ind (j : json) : P j :=
  match j with
  | JNull => Hnull
  | JBool b => Hbool b
  | JNumber n => Hnum n
  | JString s => Hstr s
  | JArray xs =>
    Harr xs ((fix go l : Forall P l :=
                match l with
                | [] => Forall_nil_2 P
                | x :: l' => Forall_cons_2 P x l' (json_nested_ind x) (go l')
                end) xs)
  | JObject ms =>
    Hobj ms ((fix go l : Forall (λ kv, P (snd kv)) l :=
                match l with
                | [] => Forall_nil_2 _
                | kv :: l' =>
                  Forall_cons_2 (λ kv, P (snd kv)) kv l'
                    (json_nested_ind (snd kv)) (go l')
                end) ms)
  end.
End json_induction.

End Json.

(* ===================================================================== *)
(** ** DateTime: [Date] values and their ISO 8601 form *)
(* ===================================================================== *)

Module DateTime.
Import Text.
Local Open Scope nat_scope.

(** A valid [Date], given by the UTC fields of its time value; years
    0 to 9999, the range [toISOString] prints with four digits. *)
Record Date : Type := mkDate {
  year : nat; month : nat; day : nat;
  hours : nat; minutes : nat; seconds : nat; millis : nat
}.

Definition leap (y : nat) : bool :=
  (y mod 4 =? 0) && (negb (y mod 100 =? 0) || (y mod 400 =? 0)).

Definition days_in_month (y m : nat) : nat :=
  match m with
  | 1 | 3 | 5 | 7 | 8 | 10 | 12 => 31
  | 4 | 6 | 9 | 11 => 30
  | 2 => if leap y then 29 else 28
  | _ => 0
  end.

Definition Date_valid (d : Date) : bool :=
  (year d <? 100 * 100) && (1 <=? month d) && (month d <=? 12) &&
  (1 <=? day d) && (day d <=? days_in_month (year d) (month d)) &&
  (hours d <? 24) && (minutes d <? 60) && (seconds d <? 60) &&
  (millis d <? 1000).

(** [Date.prototype.toISOString]: [YYYY-MM-DDTHH:mm:ss.sssZ]. *)
Definition toISOString (d : Date) : string :=
  text (pad_digits 4 (year d) ++ "-" :: pad_digits 2 (month d) ++ "-" ::
        pad_digits 2 (day d) ++ "T" :: pad_digits 2 (hours d) ++ ":" ::
        pad_digits 2 (minutes d) ++ ":" :: pad_digits 2 (seconds d) ++ "." ::
        pad_digits 3 (millis d) ++ ["Z"]).

Definition checked (d : Date) : option Date :=
  if Date_valid d then Some d else None.

(** [new Date (s)] on the two ISO forms the client meets: the date-only
    form (midnight UTC) and the full form [toISOString] prints.  [None] is
    the Invalid Date. *)
Definition Date_parse (s : string) : option Date :=
  match chars s with
  | [y1; y2; y3; y4; s1; m1; m2; s2; d1; d2] =>
    if ((s1 =? "-") && (s2 =? "-"))%char then
      y ← digits_val [y1; y2; y3; y4]; m ← digits_val [m1; m2];
      d ← digits_val [d1; d2];
      checked (mkDate y m d 0 0 0 0)
    else None
  | [y1; y2; y3; y4; s1; m1; m2; s2; d1; d2; t; h1; h2; s3; i1; i2; s4;
     c1; c2; s5; l1; l2; l3; z] =>
    if ((s1 =? "-") && (s2 =? "-") && (t =? "T") && (s3 =? ":") &&
        (s4 =? ":") && (s5 =? ".") && (z =? "Z"))%char then
      y ← digits_val [y1; y2; y3; y4]; m ← digits_val [m1; m2];
      d ← digits_val [d1; d2]; h ← digits_val [h1; h2];
      i ← digits_val [i1; i2]; c ← digits_val [c1; c2];
      l ← digits_val [l1; l2; l3];
      checked (mkDate y m d h i c l)
    else None
  | _ => None
  end.

End DateTime.

(* ===================================================================== *)
(** ** License: the records of [types/license] *)
(* ===================================================================== *)

Module License.
Import Text Json DateTime.
Local Open Scope string_scope.

(** Modelled from the spec: the type declarations of [types/license]
    ([TLicenseResponse], [TCachedLicense], [TLicenseClaim]) are not part
    of the sources; the fields are those the client reads and writes, the
    enumerations those of the data model: a license carries a status the
    authority reports, a cached state a derived status, which is a
    reported one, [NOT_FOUND] or [UNAUTHORIZED]. *)
Inductive LicenseStatus : Type := ACTIVE | EXPIRED | CANCELED.

Inductive DerivedStatus : Type :=
| REPORTED (s : LicenseStatus)
| NOT_FOUND
| UNAUTHORIZED.

(** [Partial<TLicenseClaim>]: feature name to boolean, keys unique. *)
Abbreviation Flags := (gmap string bool).

Record LicenseRecord : Type := mkLicense {
  status : LicenseStatus;
  createdAt : Date;
  name : string;
  periodEnd : Date;
  cancelAtPeriodEnd : bool;
  licenseKey : string;
  flags : Flags
}.

Record TLicenseResponse : Type := mkResponse {
  success : bool;
  data : option LicenseRecord
}.

Record TCachedLicense : Type := mkCached {
  lastChecked : string;
  license : option LicenseRecord;
  requestedLicenseKey : option string;
  unauthorizedFlagUsage : bool;
  derivedStatus : DerivedStatus
}.

Definition status_name (s : LicenseStatus) : string :=
  match s with
  | ACTIVE => "ACTIVE" | EXPIRED => "EXPIRED" | CANCELED => "CANCELED"
  end.

Definition derived_name (s : DerivedStatus) : string :=
  match s with
  | REPORTED s => status_name s
  | NOT_FOUND => "NOT_FOUND"
  | UNAUTHORIZED => "UNAUTHORIZED"
  end.

Definition status_of_name (s : string) : option LicenseStatus :=
  if s =? "ACTIVE" then Some ACTIVE
  else if s =? "EXPIRED" then Some EXPIRED
  else if s =? "CANCELED" then Some CANCELED
  else None.

Definition derived_of_name (s : string) : option DerivedStatus :=
  if s =? "NOT_FOUND" then Some NOT_FOUND
  else if s =? "UNAUTHORIZED" then Some UNAUTHORIZED
  else REPORTED <$> status_of_name s.

(** What [JSON.stringify] serialises of these objects: a [Date] through
    its [toJSON], an [undefined] property not at all.  The members of
    [flags] come in the order of the map, not in insertion order. *)
Definition Flags_toJSON (f : Flags) : json :=
  JObject (prod_map id JBool <$> map_to_list f).

Definition LicenseRecord_toJSON (l : LicenseRecord) : json :=
  JObject [
    ("status", JString (status_name (status l)));
    ("createdAt", JString (toISOString (createdAt l)));
    ("name", JString (name l));
    ("periodEnd", JString (toISOString (periodEnd l)));
    ("cancelAtPeriodEnd", JBool (cancelAtPeriodEnd l));
    ("licenseKey", JString (licenseKey l));
    ("flags", Flags_toJSON (flags l)) ].

Definition TCachedLicense_toJSON (c : TCachedLicense) : json :=
  JObject (
    [ ("lastChecked", JString (lastChecked c));
      ("license", from_option LicenseRecord_toJSON JNull (license c)) ] ++
    from_option (λ k, [("requestedLicenseKey", JString k)]) []
      (requestedLicenseKey c) ++
    [ ("unauthorizedFlagUsage", JBool (unauthorizedFlagUsage c));
      ("derivedStatus", JString (derived_name (derivedStatus c))) ]).

Definition as_string (j : json) : option string :=
  match j with JString s => Some s | _ => None end.
Definition as_bool (j : json) : option bool :=
  match j with JBool b => Some b | _ => None end.
Definition as_date (j : json) : option Date := as_string j ≫= Date_parse.
Definition as_status (j : json) : option LicenseStatus :=
  as_string j ≫= status_of_name.
Definition as_derived (j : json) : option DerivedStatus :=
  as_string j ≫= derived_of_name.

(** A required property of an object, read with [f]. *)
Definition field {A} (k : string) (f : json → option A)
    (ms : list (string * json)) : option A :=
  get k ms ≫= f.

(** Modelled from the spec: [ZCachedLicenseSchema] and the schemas it is
    built from are declared in [types/license], which is not part of the
    sources.  The shape validated is the one of the data model: every
    field present with its type, timestamps of the license in ISO form,
    [license] a record or null, [requestedLicenseKey] a string or absent,
    [flags] a mapping to booleans. *)
Definition ZLicenseClaimSchema_parse (j : json) : option Flags :=
  match j with
  | JObject ms =>
    kvs ← mapM (λ '(k, v), b ← as_bool v; Some (k, b)) ms;
    Some (list_to_map (reverse kvs))
  | _ => None
  end.

Definition ZLicenseDataSchema_parse (j : json) : option LicenseRecord :=
  match j with
  | JObject ms =>
    st ← field "status" as_status ms;
    ca ← field "createdAt" as_date ms;
    nm ← field "name" as_string ms;
    pe ← field "periodEnd" as_date ms;
    cp ← field "cancelAtPeriodEnd" as_bool ms;
    lk ← field "licenseKey" as_string ms;
    fl ← field "flags" ZLicenseClaimSchema_parse ms;
    Some (mkLicense st ca nm pe cp lk fl)
  | _ => None
  end.

Definition ZCachedLicenseSchema_parse (j : json) : option TCachedLicense :=
  match j with
  | JObject ms =>
    lc ← field "lastChecked" as_string ms;
    li ← match get "license" ms with
         | Some JNull => Some None
         | Some l => Some <$> ZLicenseDataSchema_parse l
         | None => None
         end;
    rk ← match get "requestedLicenseKey" ms with
         | None => Some None
         | Some k => Some <$> as_string k
         end;
    uf ← field "unauthorizedFlagUsage" as_bool ms;
    ds ← field "derivedStatus" as_derived ms;
    Some (mkCached lc li rk uf ds)
  | _ => None
  end.

(** The records the schema is about: their dates are dates. *)
Definition LicenseRecord_valid (l : LicenseRecord) : bool :=
  Date_valid (createdAt l) && Date_valid (periodEnd l).

Definition TCachedLicense_valid (c : TCachedLicense) : bool :=
  from_option LicenseRecord_valid true (license c).

End License.

(* ===================================================================== *)
(** ** Effects: the world of the client and the monad of its methods *)
(* ===================================================================== *)

Module Effects.
Import Json DateTime License.

(** A thrown value. *)
Inductive exn : Type := Error (message : string).

(** How a call completes: normally with a value, or by throwing. *)
Inductive Completion (A : Type) : Type :=
| Normal (a : A)
| Throw (e : exn).
Arguments Normal {A} a.
Arguments Throw {A} e.

(** The calls of [console], one constructor per call site:
    - [CheckingLicense]: log, Checking license with server...
    - [ServerNotResponding]: warn, License server not responding, using
      cached license.
    - [ErrorObject err]: error, the caught error
    - [FoundUnauthorizedFlagUsage]: warn, Found unauthorized flag usage.
    - [CheckCompleted]: log, License check completed successfully.
    - [ReportUsage b]: log, Unauthorized Flag Usage: Yes or No
    - [ReportDerivedStatus s]: log, Derived Status: s
    - [ReportStatus s]: log, Status: s
    - [ReportFlags f]: log, Flags: f
    - [BypassingServer]: log, Bypassing license server call - returning
      mock response
    - [BypassingFlagCheck]: log, Bypassing unauthorized flag check -
      returning false
    - [FailedToVerify err]: error, Failed to verify license: err
    - [FailedToSave err]: error, Failed to save license file: err *)
Inductive LogEvent : Type :=
| CheckingLicense
| ServerNotResponding
| ErrorObject (e : exn)
| FoundUnauthorizedFlagUsage
| CheckCompleted
| ReportUsage (b : bool)
| ReportDerivedStatus (s : DerivedStatus)
| ReportStatus (s : option LicenseStatus)
| ReportFlags (f : Flags)
| BypassingServer
| BypassingFlagCheck
| FailedToVerify (e : exn)
| FailedToSave (e : exn).

Inductive Level : Type := LOG | WARN | ERROR.

Definition level (ev : LogEvent) : Level :=
  match ev with
  | ServerNotResponding | FoundUnauthorizedFlagUsage => WARN
  | ErrorObject _ | FailedToVerify _ | FailedToSave _ => ERROR
  | _ => LOG
  end.

(** The host application, as far as the policy check reads it: the table
    [SUBSCRIPTION_CLAIM_FEATURE_FLAGS], [IS_BILLING_ENABLED ()] and the
    flags of the rows of [organisationClaim]. *)
Record FeatureFlag : Type := mkFlag { key : string; isEnterprise : bool }.

Record HostRecords : Type := mkHost {
  SUBSCRIPTION_CLAIM_FEATURE_FLAGS : list FeatureFlag;
  IS_BILLING_ENABLED : bool;
  organisationClaims : list Flags
}.

(** What a call finds and cannot change: the clock, whether the license
    file can be read and written, the records of the host. *)
Record Env : Type := mkEnv {
  now : Date;
  readable : bool;
  writable : bool;
  host : HostRecords
}.

(** What calls change.  A [LicenseClient] object is an address in [heap],
    the cell holds its field [cachedLicense]; [registered] is
    [globalThis.__documenso_license_client__]; [file] is the content of the
    license file of the working directory, if it exists. *)
Record World : Type := mkWorld {
  env : Env;
  file : option string;
  console : list LogEvent;
  heap : list (option TCachedLicense);
  registered : option nat
}.

Definition M (A : Type) : Type := World → Completion A * World.

#[export] Instance M_ret : MRet M := λ A a w, (Normal a, w).
#[export] Instance M_bind : MBind M := λ A B f m w,
  match m w with
  | (Normal a, w') => f a w'
  | (Throw e, w') => (Throw e, w')
  end.

(** [try m]: the completion of [m], as a [try]/[catch] sees it. *)
Definition try {A} (m : M A) : M (Completion A) := λ w,
  let '(r, w') := m w in (Normal r, w').

Definition say (ev : LogEvent) : M unit := λ w,
  (Normal (), mkWorld (env w) (file w) (console w ++ [ev]) (heap w) (registered w)).

Definition say_all (evs : list LogEvent) (w : World) : World :=
  mkWorld (env w) (file w) (console w ++ evs) (heap w) (registered w).

(** [new Date ().toISOString ()] *)
Definition current_time : M string := λ w, (Normal (toISOString (now (env w))), w).

(** [fs.readFile (licenseFilePath, 'utf-8')].  The path is
    [path.join (process.cwd (), LICENSE_FILE_NAME)]: one file; the working
    directory is taken to exist, so that naming the file does not throw. *)
Definition readFile : M string := λ w,
  if readable (env w) then
    match file w with
    | Some s => (Normal s, w)
    | None => (Throw (Error "ENOENT"), w)
    end
  else (Throw (Error "EACCES"), w).

(** [fs.writeFile (licenseFilePath, s, 'utf-8')] *)
Definition writeFile (s : string) : M unit := λ w,
  if writable (env w) then
    (Normal (), mkWorld (env w) (Some s) (console w) (heap w) (registered w))
  else (Throw (Error "EACCES"), w).

(** [new LicenseClient ()]: a fresh object, [cachedLicense] null. *)
Definition new_LicenseClient : M nat := λ w,
  (Normal (length (heap w)),
   mkWorld (env w) (file w) (console w) (heap w ++ [None]) (registered w)).

(** [this.cachedLicense], read and written.  The methods are called on
    objects only; at an address that is none the write does nothing. *)
Definition read_cachedLicense (this : nat) : M (option TCachedLicense) := λ w,
  (Normal (default None (heap w !! this)), w).

Definition write_cachedLicense (this : nat) (c : TCachedLicense) : M unit := λ w,
  (Normal (), mkWorld (env w) (file w) (console w) (<[this := Some c]> (heap w))
                      (registered w)).

Definition read_registered : M (option nat) := λ w, (Normal (registered w), w).

Definition write_registered (a : nat) : M unit := λ w,
  (Normal (), mkWorld (env w) (file w) (console w) (heap w) (Some a)).

(** A method that reads the environment and writes to the console only:
    the remote call and the policy check. *)
Definition Collaborator (A : Type) : Type := Env → Completion A * list LogEvent.

Definition call {A} (c : Collaborator A) : M A := λ w,
  let '(r, evs) := c (env w) in (r, say_all evs w).

End Effects.

(* ===================================================================== *)
(** ** Client: the methods of [LicenseClient] *)
(* ===================================================================== *)

(** Every method is [async]; the model runs the calls one after the other,
    each [await] at once. *)

Module Client.
Import Json DateTime License Effects.
Local Open Scope string_scope.

(** JavaScript truthiness of [string | undefined]. *)
Definition truthy (k : option string) : bool :=
  match k with
  | Some s => negb (s =? "")
  | None => false
  end.

Section Methods.

(** [env ('NEXT_PRIVATE_DOCUMENSO_LICENSE_KEY')], read once. *)
Variable LICENSE_KEY : option string.

Definition loadFromFile : M (option TCachedLicense) :=
  r ← try readFile;
  match r with
  | Normal fileContents =>
    mret (JSON_parse fileContents ≫= ZCachedLicenseSchema_parse)
  | Throw _ => mret None
  end.

Definition saveToFile (data : TCachedLicense) : M unit :=
  r ← try (writeFile (JSON_stringify (TCachedLicense_toJSON data)));
  match r with
  | Normal _ => mret ()
  | Throw error => say (FailedToSave error)
  end.

(** The bypass of the sources: no request is made. *)
Definition mock_license (k : string) : LicenseRecord :=
  {| status := ACTIVE;
     createdAt := mkDate 2024 1 1 0 0 0 0;
     name := "Enterprise License (Local)";
     periodEnd := mkDate 2030 12 31 0 0 0 0;
     cancelAtPeriodEnd := false;
     licenseKey := k;
     flags := list_to_map [
       ("emailDomains", true);
       ("embedAuthoring", true);
       ("embedAuthoringWhiteLabel", true);
       ("cfr21", true);
       ("authenticationPortal", true);
       ("billing", true) ] |}.

Definition mock_response (k : string) : TLicenseResponse :=
  {| success := true; data := Some (mock_license k) |}.

Definition pingLicenseServer : Collaborator (option TLicenseResponse) := λ _,
  if negb (truthy LICENSE_KEY) then (Normal None, [])
  else (Normal (Some (mock_response (default "" LICENSE_KEY))),
        [BypassingServer]).

Definition checkUnauthorizedFlagUsage (_licenseFlags : Flags)
  : Collaborator bool := λ _,
  (Normal false, [BypassingFlagCheck]).



Section Reconciler.

(** [this.pingLicenseServer] and [this.checkUnauthorizedFlagUsage]:
    [initialize] is written against the two methods, whatever they do. *)
Variable ping : Collaborator (option TLicenseResponse).
Variable check : Flags → Collaborator bool.

(** Lines 115 to 123: the status of the record.  A reported status is a
    member of its enumeration, never the empty string: the test
    [response?.data?.status] asks whether there is a response with data. *)
Definition derive (response : option TLicenseResponse)
    (unauthorizedFlagUsage : bool) : DerivedStatus :=
  let status := NOT_FOUND in
  let status :=
    match response ≫= data with
    | Some d => REPORTED (License.status d)
    | None => status
    end in
  if unauthorizedFlagUsage then UNAUTHORIZED else status.

Definition initialize_with (this : nat) : M unit :=
  say CheckingLicense ;;
  cachedLicense ← loadFromFile;
  match cachedLicense with
  | Some c => write_cachedLicense this c
  | None => mret ()
  end ;;
  r ← try (call ping);
  match r with
  | Throw err =>
    say ServerNotResponding ;;
    say (ErrorObject err)
  | Normal response =>
    let allowedFlags : Flags :=
      default ∅ (flags <$> (response ≫= data)) in
    unauthorizedFlagUsage ← call (check allowedFlags);
    (if unauthorizedFlagUsage : bool then say FoundUnauthorizedFlagUsage
     else mret ()) ;;
    let status := derive response unauthorizedFlagUsage in
    lastChecked ← current_time;
    let data :=
      {| lastChecked := lastChecked;
         license := response ≫= License.data;
         requestedLicenseKey := LICENSE_KEY;
         unauthorizedFlagUsage := unauthorizedFlagUsage;
         derivedStatus := status |} in
    write_cachedLicense this data ;;
    saveToFile data ;;
    say CheckCompleted ;;
    say (ReportUsage unauthorizedFlagUsage) ;;
    say (ReportDerivedStatus status) ;;
    say (ReportStatus (License.status <$> (response ≫= License.data))) ;;
    say (ReportFlags allowedFlags)
  end.

Definition start_with : M unit :=
  g ← read_registered;
  match g with
  | Some _ => mret ()
  | None =>
    instance ← new_LicenseClient;
    write_registered instance ;;
    r ← try (initialize_with instance);
    match r with
    | Normal _ => mret ()
    | Throw err => say (FailedToVerify err)
    end
  end.

Definition resync_with (this : nat) : M unit := initialize_with this.

End Reconciler.

Definition initialize : nat → M unit :=
  initialize_with pingLicenseServer checkUnauthorizedFlagUsage.

Definition start : M unit :=
  start_with pingLicenseServer checkUnauthorizedFlagUsage.

Definition resync : nat → M unit :=
  resync_with pingLicenseServer checkUnauthorizedFlagUsage.

Definition getInstance : M (option nat) := read_registered.

Definition getCachedLicense (this : nat) : M (option TCachedLicense) :=
  c ← read_cachedLicense this;
  match c with
  | Some c => mret (Some c)
  | None => loadFromFile
  end.

End Methods.

(** The cycles begun, read off the console: [initialize] starts with the
    line [Checking license with server...]. *)
Fixpoint cycles (l : list LogEvent) : nat :=
  match l with
  | [] => 0
  | CheckingLicense :: l' => S (cycles l')
  | _ :: l' => cycles l'
  end.



End Client.

(* ===================================================================== *)
(** ** Scenarios: concrete worlds and collaborators *)
(* ===================================================================== *)

Module Scenario.
Import Json DateTime License Effects Client.
Local Open Scope string_scope.

Definition quiet_host : HostRecords := mkHost [] false [].


Definition clock : Date := mkDate 2026 11 2 9 30 0 0.

Definition env_ok : Env := mkEnv clock true true quiet_host.
Definition env_read_only : Env := mkEnv clock true false quiet_host.

(** One client object, nothing on disk, nothing logged. *)
Definition first_run : World := mkWorld env_ok None [] [None] None.

(** Before [start]: no object yet. *)
Definition not_started : World := mkWorld env_ok None [] [] None.

(** A record left by a previous run: ACTIVE, checked on 2026-01-01. *)
Definition prior_record : TCachedLicense :=
  {| lastChecked := "2026-01-01T00:00:00.000Z";
     license := data (mock_response "key-1");
     requestedLicenseKey := Some "key-1";
     unauthorizedFlagUsage := false;
     derivedStatus := REPORTED ACTIVE |}.

Definition prior_text : string :=
  JSON_stringify (TCachedLicense_toJSON prior_record).

Definition cached_run : World :=
  mkWorld env_ok (Some prior_text) [] [None] None.

(** The file cannot be written and holds something else. *)
Definition read_only_run : World :=
  mkWorld env_read_only (Some "stale") [] [None] None.

(** An authority that answers ACTIVE, one that cannot be reached, one that
    knows no license; a policy check that finds unauthorized usage. *)
Definition ping_active : Collaborator (option TLicenseResponse) :=
  λ _, (Normal (Some (mock_response "key-1")), []).

Definition ping_down : Collaborator (option TLicenseResponse) :=
  λ _, (Throw (Error "fetch failed"), []).

Definition ping_none : Collaborator (option TLicenseResponse) :=
  λ _, (Normal None, []).

Definition check_usage (_ : Flags) : Collaborator bool :=
  λ _, (Normal true, []).

Definition check_broken (_ : Flags) : Collaborator bool :=
  λ _, (Throw (Error "database unavailable"), []).

End Scenario.

(* ===================================================================== *)
(** ** Tactics *)
(* ===================================================================== *)

(** Unfolding of the monad and of the primitive operations, keeping the
    cache store, the serialisation and [derive] folded. *)
Ltac calm :=
  cbn -[Client.loadFromFile Client.saveToFile Client.derive Json.JSON_stringify
        License.TCachedLicense_toJSON DateTime.toISOString] in *.

Ltac run :=
  unfold Client.initialize_with, Client.resync_with, Client.getCachedLicense,
    Client.getInstance, mbind, Effects.M_bind, mret, Effects.M_ret, Effects.try,
    Effects.call, Effects.say, Effects.say_all, Effects.current_time,
    Effects.write_cachedLicense, Effects.read_cachedLicense,
    Effects.read_registered;
  cbn -[Client.loadFromFile Client.saveToFile Client.derive Json.JSON_stringify
        License.TCachedLicense_toJSON DateTime.toISOString].

(** Membership in a console given by its lines. *)
Ltac listed := rewrite ?elem_of_app, ?elem_of_cons; auto 12.
Ltac unlisted :=
  rewrite ?elem_of_app, ?elem_of_cons, ?elem_of_nil; intuition discriminate.

(* ===================================================================== *)
(** ** Facts about text *)
(* ===================================================================== *)

Section TextFacts.
Import Text.

Lemma chars_text l : chars (text l) = l.
Proof. apply list_ascii_of_string_of_list_ascii. Qed.

Lemma text_chars s : text (chars s) = s.
Proof. apply string_of_list_ascii_of_string. Qed.

Lemma length_text l : String.length (text l) = length l.
Proof. induction l as [|c l IH]; [reflexivity|]. cbn. by rewrite <- IH. Qed.

Lemma skip_ws_idem s : skip_ws (skip_ws s) = skip_ws s.
Proof.
  induction s as [|c s IH]; [reflexivity|].
  cbn [skip_ws]. destruct (is_ws c) eqn:E; [exact IH|].
  cbn [skip_ws]. rewrite E. reflexivity.
Qed.

(** One escaped character is read back as that character. *)
Lemma parse_escape_char c tail :
  parse_string_body (escape_char c ++ tail) =
  '(body, rest) ← parse_string_body tail; Some (c :: body, rest).
Proof.
  destruct c as [[] [] [] [] [] [] [] []]; reflexivity.
Qed.

Lemma parse_escape l rest :
  parse_string_body (escape l ++ dquote :: rest) = Some (l, rest).
Proof.
  induction l as [|c l IH]; [reflexivity|].
  cbn [escape]. rewrite <- app_assoc, parse_escape_char, IH. reflexivity.
Qed.

Lemma length_quote k : 2 ≤ length (quote k).
Proof. unfold quote. cbn [length]. rewrite length_app. cbn. lia. Qed.

Lemma digit_char_ok n :
  n < 10 → is_digit (digit_char n) = true ∧ digit_val (digit_char n) = n.
Proof.
  intros H. do 10 (destruct n as [|n]; [split; reflexivity|]). lia.
Qed.

Lemma digits_val_from_snoc l : ∀ acc n,
  n < 10 →
  digits_val_from acc (l ++ [digit_char n]) =
  x ← digits_val_from acc l; Some (10 * x + n).
Proof.
  induction l as [|c l IH]; intros acc n Hn.
  - cbn [app digits_val_from].
    destruct (digit_char_ok n Hn) as [-> ->]. reflexivity.
  - cbn [app digits_val_from]. destruct (is_digit c); [|reflexivity].
    by apply IH.
Qed.

Lemma digits_val_pad w : ∀ n, digits_val (pad_digits w n) = Some (n mod 10 ^ w).
Proof.
  unfold digits_val. induction w as [|w IH]; intros n.
  - cbn [pad_digits digits_val_from Nat.pow]. by rewrite Nat.mod_1_r.
  - cbn [pad_digits].
    rewrite digits_val_from_snoc by (apply Nat.mod_upper_bound; lia).
    rewrite IH. cbn [mbind option_bind]. f_equal.
    rewrite Nat.pow_succ_r', Nat.Div0.mod_mul_r. lia.
Qed.

Lemma digits_val_pad_small w n :
  n < 10 ^ w → digits_val (pad_digits w n) = Some n.
Proof. intros H. by rewrite digits_val_pad, Nat.mod_small. Qed.

End TextFacts.

(* ===================================================================== *)
(** ** Facts about JSON: what is printed is read back *)
(* ===================================================================== *)

Section JsonFacts.
Import Text Json.

Lemma print_object ind m ms :
  print ind (JObject (m :: ms)) =
  "{" :: nl :: join_lines (List.map (member_line ind) (m :: ms))
  ++ nl :: indent ind ++ ["}"].
Proof. reflexivity. Qed.

Lemma print_array ind x xs :
  print ind (JArray (x :: xs)) =
  "[" :: nl :: join_lines (List.map (item_line ind) (x :: xs))
  ++ nl :: indent ind ++ ["]"].
Proof. reflexivity. Qed.

Lemma join_lines_cons x y (l : list (list ascii)) :
  join_lines (x :: y :: l) = x ++ "," :: nl :: join_lines (y :: l).
Proof. reflexivity. Qed.

Lemma join_lines_head (x : list ascii) l : ∃ t, join_lines (x :: l) = x ++ t.
Proof.
  destruct l as [|y l]; [exists []; symmetry; apply app_nil_r|].
  rewrite join_lines_cons. eauto.
Qed.

Lemma skip_ws_indent n s : skip_ws (indent n ++ s) = skip_ws s.
Proof. induction n as [|n IH]; [reflexivity | exact IH]. Qed.

Lemma skip_ws_closing ind c rest :
  is_ws c = false → skip_ws (nl :: indent ind ++ c :: rest) = c :: rest.
Proof.
  intros Hc. change (skip_ws (nl :: ?x)) with (skip_ws x).
  rewrite skip_ws_indent. cbn [skip_ws]. rewrite Hc. reflexivity.
Qed.

(** The parser reads past white space before a value, a member, an item. *)
Lemma parse_value_skip fuel s : parse_value fuel (skip_ws s) = parse_value fuel s.
Proof.
  destruct fuel; [reflexivity|]. cbn [parse_value].
  rewrite skip_ws_idem. reflexivity.
Qed.

Lemma parse_members_skip fuel s :
  parse_members fuel (skip_ws s) = parse_members fuel s.
Proof.
  destruct fuel; [reflexivity|]. cbn [parse_members].
  rewrite skip_ws_idem. reflexivity.
Qed.

Lemma parse_members_nl f s : parse_members f (nl :: s) = parse_members f s.
Proof. destruct f; reflexivity. Qed.

Lemma parse_items_nl f s : parse_items f (nl :: s) = parse_items f s.
Proof. destruct f as [|[|f]]; reflexivity. Qed.

(** Unfolding equations of the parser, one per head character. *)
Lemma parse_value_string f r :
  parse_value (S f) (dquote :: r) =
  '(body, r1) ← parse_string_body r; Some (JString (text body), r1).
Proof. reflexivity. Qed.

Lemma parse_value_object f r c1 r1 :
  skip_ws r = c1 :: r1 →
  parse_value (S f) ("{" :: r) =
  if c1 =? "}" then Some (JObject [], r1)
  else '(ms, r2) ← parse_members f (c1 :: r1); Some (JObject ms, r2).
Proof. intros H. cbn. rewrite H. reflexivity. Qed.

Lemma parse_value_array f r c1 r1 :
  skip_ws r = c1 :: r1 →
  parse_value (S f) ("[" :: r) =
  if c1 =? "]" then Some (JArray [], r1)
  else '(xs, r2) ← parse_items f (c1 :: r1); Some (JArray xs, r2).
Proof. intros H. cbn. rewrite H. reflexivity. Qed.

Lemma parse_members_eq f s :
  parse_members (S f) s =
  match skip_ws s with
  | c :: r =>
    if c =? dquote then
      '(k, r1) ← parse_string_body r;
      match skip_ws r1 with
      | c2 :: r2 =>
        if c2 =? ":" then
          '(v, r3) ← parse_value f r2;
          match skip_ws r3 with
          | c4 :: r4 =>
            if c4 =? "," then
              '(ms, r5) ← parse_members f r4; Some ((text k, v) :: ms, r5)
            else if c4 =? "}" then Some ([(text k, v)], r4)
            else None
          | [] => None
          end
        else None
      | [] => None
      end
    else None
  | [] => None
  end.
Proof. reflexivity. Qed.

Lemma parse_items_eq f s :
  parse_items (S f) s =
  '(v, r1) ← parse_value f s;
  match skip_ws r1 with
  | c2 :: r2 =>
    if c2 =? "," then '(xs, r3) ← parse_items f r2; Some (v :: xs, r3)
    else if c2 =? "]" then Some ([v], r2)
    else None
  | [] => None
  end.
Proof. reflexivity. Qed.

Lemma parse_value_object_members f r c1 r1 :
  skip_ws r = c1 :: r1 → (c1 =? "}") = false →
  parse_value (S f) ("{" :: r) =
  '(ms, r2) ← parse_members f r; Some (JObject ms, r2).
Proof.
  intros H Hc. rewrite (parse_value_object f r c1 r1 H), Hc.
  rewrite <- H, parse_members_skip. reflexivity.
Qed.

Lemma parse_value_array_items f r c1 r1 :
  skip_ws r = c1 :: r1 → (c1 =? "]") = false →
  parse_value (S f) ("[" :: r) =
  '(xs, r2) ← parse_items f r; Some (JArray xs, r2).
Proof.
  intros H Hc. rewrite (parse_value_array f r c1 r1 H), Hc.
  destruct f as [|f]; [reflexivity|].
  rewrite !parse_items_eq, <- H, parse_value_skip. reflexivity.
Qed.

(** A line is longer than the value it ends with: fuel for the line is
    fuel for the value. *)
Lemma member_line_fuel ind k v :
  length (print (ind + 2) v) < length (member_line ind (k, v)).
Proof.
  unfold member_line, quote. rewrite !length_app. cbn [length fst snd]. lia.
Qed.

Lemma item_line_fuel ind v :
  length (print (ind + 2) v) < length (item_line ind v).
Proof.
  unfold item_line, indent. rewrite !length_app, repeat_length. lia.
Qed.

Lemma print_head ind j :
  plain j = true →
  ∃ c r, print ind j = c :: r ∧ is_ws c = false ∧ (c =? "]") = false.
Proof.
  destruct j as [|[]| | |[|x xs]|[|m ms]]; intros Hp; try discriminate;
    do 2 eexists; (split; [reflexivity|split; reflexivity]).
Qed.

Lemma parse_member_head f ind k v tail :
  parses_back v → length (print (ind + 2) v) < f →
  parse_members (S f) (member_line ind (k, v) ++ tail) =
  match skip_ws tail with
  | c4 :: r4 =>
    if c4 =? "," then '(ms, r5) ← parse_members f r4; Some ((k, v) :: ms, r5)
    else if c4 =? "}" then Some ([(k, v)], r4)
    else None
  | [] => None
  end.
Proof.
  intros Hv Hf. rewrite parse_members_eq. unfold member_line, quote.
  cbn [fst snd]. rewrite <- app_assoc, skip_ws_indent.
  cbn [app skip_ws]. change (is_ws dquote) with false. cbn match.
  change (dquote =? dquote) with true. cbn match.
  rewrite <- !app_assoc. cbn [app]. rewrite parse_escape.
  cbn [mbind option_bind].
  change (skip_ws (":" :: ?x)) with (":" :: x). cbn match.
  change (":" =? ":") with true. cbn match.
  rewrite <- (parse_value_skip f (" " :: _)).
  change (skip_ws (" " :: ?x)) with (skip_ws x).
  rewrite parse_value_skip, Hv by exact Hf.
  cbn [mbind option_bind]. rewrite text_chars. reflexivity.
Qed.

Lemma members_ok ms :
  Forall (λ kv, parses_back (snd kv)) ms →
  ms ≠ [] →
  ∀ ind fuel rest,
    length (join_lines (List.map (member_line ind) ms)) < fuel →
    parse_members fuel
      (join_lines (List.map (member_line ind) ms)
       ++ nl :: indent ind ++ "}" :: rest)
    = Some (ms, rest).
Proof.
  induction 1 as [|[k v] ms Hv Hms IH]; [done|].
  intros _ ind fuel rest Hfuel. cbn [snd] in Hv.
  destruct fuel as [|f]; [lia|].
  pose proof (member_line_fuel ind k v) as Hline.
  destruct ms as [|kv' ms'].
  - cbn [List.map join_lines] in *.
    rewrite parse_member_head by (done || lia).
    rewrite skip_ws_closing by reflexivity. reflexivity.
  - cbn [List.map] in *. rewrite join_lines_cons in *.
    rewrite length_app in Hfuel. cbn [length] in Hfuel.
    rewrite <- app_assoc.
    rewrite parse_member_head by (done || lia).
    cbn [app skip_ws]. change (is_ws ",") with false. cbn match.
    change ("," =? ",") with true. cbn match.
    rewrite parse_members_nl.
    rewrite IH by (done || lia). reflexivity.
Qed.

Lemma parse_item_head f ind v tail :
  parses_back v → length (print (ind + 2) v) < f →
  parse_items (S f) (item_line ind v ++ tail) =
  match skip_ws tail with
  | c2 :: r2 =>
    if c2 =? "," then '(xs, r3) ← parse_items f r2; Some (v :: xs, r3)
    else if c2 =? "]" then Some ([v], r2)
    else None
  | [] => None
  end.
Proof.
  intros Hv Hf. rewrite parse_items_eq. unfold item_line.
  rewrite <- app_assoc, <- parse_value_skip, skip_ws_indent, parse_value_skip.
  rewrite Hv by exact Hf. reflexivity.
Qed.

Lemma items_ok xs :
  Forall parses_back xs →
  xs ≠ [] →
  ∀ ind fuel rest,
    length (join_lines (List.map (item_line ind) xs)) < fuel →
    parse_items fuel
      (join_lines (List.map (item_line ind) xs)
       ++ nl :: indent ind ++ "]" :: rest)
    = Some (xs, rest).
Proof.
  induction 1 as [|v xs Hv Hxs IH]; [done|].
  intros _ ind fuel rest Hfuel.
  destruct fuel as [|f]; [lia|].
  pose proof (item_line_fuel ind v) as Hline.
  destruct xs as [|v' xs'].
  - cbn [List.map join_lines] in *.
    rewrite parse_item_head by (done || lia).
    rewrite skip_ws_closing by reflexivity. reflexivity.
  - cbn [List.map] in *. rewrite join_lines_cons in *.
    rewrite length_app in Hfuel. cbn [length] in Hfuel.
    rewrite <- app_assoc.
    rewrite parse_item_head by (done || lia).
    cbn [app skip_ws]. change (is_ws ",") with false. cbn match.
    change ("," =? ",") with true. cbn match.
    rewrite parse_items_nl.
    rewrite IH by (done || lia). reflexivity.
Qed.

(** Every tree without numbers is read back from what [print] writes. *)
Theorem parse_print j : plain j = true → parses_back j.
Proof.
  induction j as [|b|n|s|xs IH|ms IH] using json_nested_ind;
    intros Hp ind fuel rest Hfuel; (destruct fuel as [|f]; [lia|]).
  - reflexivity.
  - destruct b; reflexivity.
  - discriminate.
  - cbn [print]. unfold quote. cbn [app]. rewrite parse_value_string.
    rewrite <- app_assoc. cbn [app]. rewrite parse_escape.
    cbn [mbind option_bind]. rewrite text_chars. reflexivity.
  - destruct xs as [|x xs]; [reflexivity|].
    rewrite print_array in *. cbn [app length] in *.
    rewrite length_app in Hfuel. rewrite <- app_assoc. cbn [app].
    cbn [plain] in Hp.
    assert (Hall : Forall parses_back (x :: xs)).
    { clear -IH Hp. rewrite forallb_forall in Hp. rewrite Forall_forall in *.
      intros y Hy. apply IH; [done|]. apply Hp. by apply list_elem_of_In. }
    destruct (join_lines_head (item_line ind x) (List.map (item_line ind) xs))
      as [t Ht].
    destruct (print_head (ind + 2) x) as (c & r & Hc & Hws & Hcl).
    { cbn [forallb] in Hp. by apply andb_prop in Hp as [? _]. }
    erewrite parse_value_array_items; [|
      change (skip_ws (nl :: ?y)) with (skip_ws y); cbn [List.map]; rewrite Ht;
      unfold item_line; rewrite <- !app_assoc, skip_ws_indent, Hc;
      cbn [app skip_ws]; rewrite Hws; reflexivity | exact Hcl].
    rewrite parse_items_nl, <- app_assoc. cbn [app].
    rewrite items_ok by (done || lia). reflexivity.
  - destruct ms as [|m ms]; [reflexivity|].
    rewrite print_object in *. cbn [app length] in *.
    rewrite length_app in Hfuel. rewrite <- app_assoc. cbn [app].
    cbn [plain] in Hp.
    assert (Hall : Forall (λ kv, parses_back (snd kv)) (m :: ms)).
    { clear -IH Hp. rewrite forallb_forall in Hp. rewrite Forall_forall in *.
      intros y Hy. apply IH; [done|]. apply Hp. by apply list_elem_of_In. }
    destruct (join_lines_head (member_line ind m)
                (List.map (member_line ind) ms)) as [t Ht].
    erewrite parse_value_object_members; [|
      change (skip_ws (nl :: ?y)) with (skip_ws y); cbn [List.map]; rewrite Ht;
      unfold member_line, quote; rewrite <- !app_assoc, skip_ws_indent;
      reflexivity | reflexivity].
    rewrite parse_members_nl, <- app_assoc. cbn [app].
    rewrite members_ok by (done || lia). reflexivity.
Qed.

Theorem JSON_parse_stringify j :
  plain j = true → JSON_parse (JSON_stringify j) = Some j.
Proof.
  intros Hp. unfold JSON_parse, JSON_stringify.
  rewrite chars_text, length_text.
  pose proof (parse_print j Hp 0 (S (S (length (print 0 j)))) []) as H.
  rewrite app_nil_r in H. rewrite H by lia. reflexivity.
Qed.

End JsonFacts.

(* ===================================================================== *)
(** ** Facts about dates and about the schema *)
(* ===================================================================== *)

Section DateFacts.
Import Text DateTime.
Local Open Scope nat_scope.

Lemma days_in_month_le y m : days_in_month y m ≤ 31.
Proof.
  unfold days_in_month.
  do 13 (destruct m as [|m]; [try destruct (leap y); lia|]). lia.
Qed.

Lemma Date_valid_bounds d :
  Date_valid d = true →
  year d < 10 ^ 4 ∧ month d < 10 ^ 2 ∧ day d < 10 ^ 2 ∧ hours d < 10 ^ 2 ∧
  minutes d < 10 ^ 2 ∧ seconds d < 10 ^ 2 ∧ millis d < 10 ^ 3.
Proof.
  unfold Date_valid. rewrite !andb_true_iff.
  rewrite !Nat.ltb_lt, !Nat.leb_le.
  intros ((((((((Hy & _) & Hm) & _) & Hd) & Hh) & Hi) & Hs) & Hl).
  pose proof (days_in_month_le (year d) (month d)).
  cbn [Nat.pow]. lia.
Qed.

(** A date is read back from its ISO form. *)
Theorem Date_parse_toISOString d :
  Date_valid d = true → Date_parse (toISOString d) = Some d.
Proof.
  intros Hv.
  destruct (Date_valid_bounds d Hv) as (Hy & Hm & Hd & Hh & Hi & Hs & Hl).
  unfold Date_parse, toISOString. rewrite chars_text.
  cbn [pad_digits app].
  change ("-" =? "-")%char with true. change ("T" =? "T")%char with true.
  change (":" =? ":")%char with true. change ("." =? ".")%char with true.
  change ("Z" =? "Z")%char with true. cbn [andb].
  repeat match goal with
  | |- context [digits_val [digit_char (?y / 10 / 10 / 10 mod 10); ?b; ?c; ?e]] =>
    change [digit_char (y / 10 / 10 / 10 mod 10); b; c; e] with (pad_digits 4 y)
  | |- context [digits_val [digit_char (?y / 10 / 10 mod 10); ?b; ?c]] =>
    change [digit_char (y / 10 / 10 mod 10); b; c] with (pad_digits 3 y)
  | |- context [digits_val [digit_char (?y / 10 mod 10); ?b]] =>
    change [digit_char (y / 10 mod 10); b] with (pad_digits 2 y)
  end.
  rewrite !digits_val_pad_small by assumption.
  cbn [mbind option_bind]. unfold checked.
  destruct d. cbn [year month day hours minutes seconds millis] in *.
  rewrite Hv. reflexivity.
Qed.

End DateFacts.

Section SchemaFacts.
Import Text Json DateTime License.
Local Open Scope string_scope.

Lemma status_of_name_name s : status_of_name (status_name s) = Some s.
Proof. destruct s; reflexivity. Qed.

Lemma derived_of_name_name s : derived_of_name (derived_name s) = Some s.
Proof. destruct s as [[]| |]; reflexivity. Qed.

Lemma Flags_round_trip (f : Flags) :
  ZLicenseClaimSchema_parse (Flags_toJSON f) = Some f.
Proof.
  unfold ZLicenseClaimSchema_parse, Flags_toJSON.
  rewrite mapM_fmap_Some by (by intros [k b]).
  cbn [mbind option_bind]. f_equal.
  rewrite <- (list_to_map_to_list f) at 2. symmetry.
  apply list_to_map_proper; [apply NoDup_fst_map_to_list|].
  symmetry. apply reverse_Permutation.
Qed.

Lemma Flags_plain (f : Flags) : plain (Flags_toJSON f) = true.
Proof.
  unfold Flags_toJSON. cbn [plain].
  induction (map_to_list f) as [|[k b] l IH]; [reflexivity | exact IH].
Qed.

Lemma LicenseRecord_round_trip l :
  LicenseRecord_valid l = true →
  ZLicenseDataSchema_parse (LicenseRecord_toJSON l) = Some l.
Proof.
  unfold LicenseRecord_valid. intros [Hc Hp]%andb_prop.
  destruct l as [st ca nm pe cp lk fl]. cbn [createdAt periodEnd] in *.
  unfold ZLicenseDataSchema_parse, LicenseRecord_toJSON.
  cbn [status createdAt name periodEnd cancelAtPeriodEnd licenseKey flags].
  change (field "status" as_status ?ms) with (status_of_name (status_name st)).
  rewrite status_of_name_name.
  change (field "createdAt" as_date ?ms) with (Date_parse (toISOString ca)).
  change (field "periodEnd" as_date ?ms) with (Date_parse (toISOString pe)).
  change (field "flags" ZLicenseClaimSchema_parse ?ms)
    with (ZLicenseClaimSchema_parse (Flags_toJSON fl)).
  rewrite !Date_parse_toISOString, Flags_round_trip by assumption.
  reflexivity.
Qed.

Lemma LicenseRecord_plain l : plain (LicenseRecord_toJSON l) = true.
Proof.
  unfold LicenseRecord_toJSON. cbn [plain forallb snd].
  rewrite Flags_plain. reflexivity.
Qed.

(** The schema accepts what the client serialises, and gives it back. *)
Theorem TCachedLicense_round_trip c :
  TCachedLicense_valid c = true →
  ZCachedLicenseSchema_parse (TCachedLicense_toJSON c) = Some c.
Proof.
  destruct c as [lc li rk uf ds]. unfold TCachedLicense_valid. cbn [license].
  intros Hv. unfold ZCachedLicenseSchema_parse, TCachedLicense_toJSON.
  cbn [lastChecked license requestedLicenseKey unauthorizedFlagUsage
       derivedStatus].
  destruct li as [l|], rk as [k|]; cbn [from_option app];
    change (field "lastChecked" as_string ?ms) with (Some lc);
    change (field "unauthorizedFlagUsage" as_bool ?ms) with (Some uf);
    change (field "derivedStatus" as_derived ?ms)
      with (derived_of_name (derived_name ds));
    rewrite derived_of_name_name; cbn [mbind option_bind].
  - change (get "license" ?ms) with (Some (LicenseRecord_toJSON l)).
    change (get "requestedLicenseKey" ?ms) with (Some (JString k)).
    cbn match. rewrite (LicenseRecord_round_trip l Hv). reflexivity.
  - change (get "license" ?ms) with (Some (LicenseRecord_toJSON l)).
    change (get "requestedLicenseKey" ?ms) with (@None json).
    cbn match. rewrite (LicenseRecord_round_trip l Hv). reflexivity.
  - reflexivity.
  - reflexivity.
Qed.

Lemma TCachedLicense_plain c : plain (TCachedLicense_toJSON c) = true.
Proof.
  destruct c as [lc [l|] [k|] uf ds]; unfold TCachedLicense_toJSON;
    cbn [plain forallb snd from_option app lastChecked license
         requestedLicenseKey unauthorizedFlagUsage derivedStatus];
    rewrite ?LicenseRecord_plain; reflexivity.
Qed.

End SchemaFacts.

(* ===================================================================== *)
(** ** The cache store: [loadFromFile] and [saveToFile] *)
(* ===================================================================== *)

Section ClientFacts.
Import Json DateTime License Effects Client.

(** [env ('NEXT_PRIVATE_DOCUMENSO_LICENSE_KEY')] *)
Variable LICENSE_KEY : option string.

(** [loadFromFile] never throws and changes nothing. *)
Lemma loadFromFile_run w : loadFromFile w = (fst (loadFromFile w), w).
Proof.
  unfold loadFromFile, mbind, M_bind, try, readFile, mret, M_ret.
  destruct (readable (env w)); [destruct (file w)|]; reflexivity.
Qed.

Lemma loadFromFile_normal w : ∃ c, fst (loadFromFile w) = Normal c.
Proof.
  unfold loadFromFile, mbind, M_bind, try, readFile, mret, M_ret.
  destruct (readable (env w)); [destruct (file w)|]; eauto.
Qed.

(** What it returns depends on the file and on the environment only. *)
Lemma loadFromFile_ext w w' :
  env w = env w' → file w = file w' →
  fst (loadFromFile w) = fst (loadFromFile w').
Proof.
  intros He Hf.
  unfold loadFromFile, mbind, M_bind, try, readFile, mret, M_ret.
  rewrite He, Hf.
  destruct (readable (env w')); [destruct (file w')|]; reflexivity.
Qed.

(** [saveToFile] never throws: it writes the file, or logs that it could
    not. *)
Lemma saveToFile_run data w :
  saveToFile data w =
  (Normal (),
   if writable (env w)
   then mkWorld (env w) (Some (JSON_stringify (TCachedLicense_toJSON data)))
                (console w) (heap w) (registered w)
   else say_all [FailedToSave (Error "EACCES")] w).
Proof.
  unfold saveToFile, mbind, M_bind, try, writeFile, mret, M_ret, say, say_all.
  destruct (writable (env w)); reflexivity.
Qed.

(** C9: a valid record saved by [saveToFile], the write having succeeded,
    and loaded back by [loadFromFile] from the readable file is the record
    that was saved, field for field: the timestamps of the nested license
    (through their ISO form) and its flags (through the JSON object)
    included.  The schema is the one modelled from the specification. *)
Theorem save_load_round_trip data w :
  TCachedLicense_valid data = true →
  writable (env w) = true →
  readable (env w) = true →
  fst (saveToFile data w) = Normal () ∧
  fst (loadFromFile (snd (saveToFile data w))) = Normal (Some data).
Proof.
  intros Hv Hw Hr. rewrite saveToFile_run, Hw. cbn [fst snd]. split; [done|].
  unfold loadFromFile, mbind, M_bind, try, readFile, mret, M_ret.
  cbn [env file]. rewrite Hr. cbn [fst].
  rewrite JSON_parse_stringify by apply TCachedLicense_plain.
  cbn [mbind option_bind]. by rewrite TCachedLicense_round_trip.
Qed.

(** X4: [loadFromFile] returns normally whatever the file holds (missing,
    unreadable, not JSON, not of the schema) and leaves the world as it
    was. *)
Theorem loadFromFile_total w : ∃ c, loadFromFile w = (Normal c, w).
Proof.
  destruct (loadFromFile_normal w) as [c Hc]. exists c.
  rewrite loadFromFile_run, Hc. reflexivity.
Qed.

(* ===================================================================== *)
(** ** One reconciliation cycle: [initialize] *)
(* ===================================================================== *)

Section Reconciler.

(** [this.pingLicenseServer] and [this.checkUnauthorizedFlagUsage], whatever
    they do: the bypassed methods of the sources are one instance. *)
Variable ping : Collaborator (option TLicenseResponse).
Variable check : Flags → Collaborator bool.

(** The three ways a cycle ends.  First: the authority cannot be reached. *)
Lemma initialize_with_throw this w e :
  fst (ping (env w)) = Throw e →
  initialize_with LICENSE_KEY ping check this w =
  (Normal (),
   mkWorld (env w) (file w)
     (console w ++ [CheckingLicense] ++ snd (ping (env w)) ++
      [ServerNotResponding; ErrorObject e])
     (match fst (loadFromFile w) with
      | Normal (Some c) => <[this := Some c]> (heap w)
      | _ => heap w
      end)
     (registered w)).
Proof.
  intros Hp. run. rewrite loadFromFile_run.
  rewrite (loadFromFile_ext _ w) by reflexivity.
  destruct (loadFromFile_normal w) as [c ->].
  destruct c as [c|]; calm; destruct (ping (env w)) as [r evs]; calm; subst r;
    calm; rewrite <- !app_assoc; reflexivity.
Qed.

(** Second: the authority answered and the policy check returned. *)
Lemma initialize_with_normal this w response b :
  fst (ping (env w)) = Normal response →
  fst (check (default ∅ (flags <$> (response ≫= data))) (env w)) = Normal b →
  let allowed : Flags := default ∅ (flags <$> (response ≫= data)) in
  let r := {| lastChecked := toISOString (now (env w));
              license := response ≫= data;
              requestedLicenseKey := LICENSE_KEY;
              unauthorizedFlagUsage := b;
              derivedStatus := derive response b |} in
  initialize_with LICENSE_KEY ping check this w =
  (Normal (),
   mkWorld (env w)
     (if writable (env w) then Some (JSON_stringify (TCachedLicense_toJSON r))
      else file w)
     (console w ++ [CheckingLicense] ++ snd (ping (env w)) ++
      snd (check allowed (env w)) ++
      (if b then [FoundUnauthorizedFlagUsage] else []) ++
      (if writable (env w) then [] else [FailedToSave (Error "EACCES")]) ++
      [CheckCompleted; ReportUsage b; ReportDerivedStatus (derive response b);
       ReportStatus (status <$> (response ≫= data)); ReportFlags allowed])
     (<[this := Some r]>
        (match fst (loadFromFile w) with
         | Normal (Some c) => <[this := Some c]> (heap w)
         | _ => heap w
         end))
     (registered w)).
Proof.
  intros Hp Hc allowed r. run. rewrite loadFromFile_run.
  rewrite (loadFromFile_ext _ w) by reflexivity.
  destruct (loadFromFile_normal w) as [c ->]. subst allowed r.
  destruct c as [c|]; calm;
    destruct (ping (env w)) as [r0 evs]; calm; subst r0; calm;
    destruct (check _ (env w)) as [b0 evs']; calm; subst b0;
    destruct b; calm; rewrite saveToFile_run; calm;
    destruct (writable (env w)); calm;
    rewrite <- ?app_assoc; reflexivity.
Qed.

(** Third: the policy check threw; nothing catches it in [initialize]. *)
Lemma initialize_with_check_throw this w response e :
  fst (ping (env w)) = Normal response →
  fst (check (default ∅ (flags <$> (response ≫= data))) (env w)) = Throw e →
  let allowed : Flags := default ∅ (flags <$> (response ≫= data)) in
  initialize_with LICENSE_KEY ping check this w =
  (Throw e,
   mkWorld (env w) (file w)
     (console w ++ [CheckingLicense] ++ snd (ping (env w)) ++
      snd (check allowed (env w)))
     (match fst (loadFromFile w) with
      | Normal (Some c) => <[this := Some c]> (heap w)
      | _ => heap w
      end)
     (registered w)).
Proof.
  intros Hp Hc allowed. run. rewrite loadFromFile_run.
  rewrite (loadFromFile_ext _ w) by reflexivity.
  destruct (loadFromFile_normal w) as [c ->]. subst allowed.
  destruct c as [c|]; calm;
    destruct (ping (env w)) as [r0 evs]; calm; subst r0; calm;
    destruct (check _ (env w)) as [b0 evs']; calm; subst b0;
    rewrite <- ?app_assoc; reflexivity.
Qed.

Lemma seeded_length this w :
  length (match fst (loadFromFile w) with
          | Normal (Some c) => <[this := Some c]> (heap w)
          | _ => heap w
          end) = length (heap w).
Proof.
  destruct (fst (loadFromFile w)) as [[c|]|]; rewrite ?length_insert;
    reflexivity.
Qed.

(** C1: in a cycle that reaches the derive-status step (the remote call and
    the policy check have returned), the record stored in the object has
    [unauthorizedFlagUsage] as the policy check returned it, and its
    [derivedStatus] is UNAUTHORIZED if that is true, whatever the authority
    reported; otherwise the status of the response if it carries one;
    otherwise NOT_FOUND. *)
Theorem initialize_derives_status this w response b :
  this < length (heap w) →
  fst (ping (env w)) = Normal response →
  fst (check (default ∅ (flags <$> (response ≫= data))) (env w)) = Normal b →
  ∃ r,
    heap (snd (initialize_with LICENSE_KEY ping check this w)) !! this
      = Some (Some r) ∧
    unauthorizedFlagUsage r = b ∧
    derivedStatus r =
      (if b then UNAUTHORIZED
       else match response ≫= data with
            | Some d => REPORTED (status d)
            | None => NOT_FOUND
            end).
Proof.
  intros Hthis Hp Hc.
  rewrite (initialize_with_normal this w response b Hp Hc). cbn [snd heap].
  eexists. split; [|split].
  - apply list_lookup_insert_eq. by rewrite seeded_length.
  - reflexivity.
  - cbn [derivedStatus]. unfold derive. destruct b; reflexivity.
Qed.

(** C2: the record a successful cycle stores (in the object, and in the
    file when it can be written) has [derivedStatus] UNAUTHORIZED exactly
    when its [unauthorizedFlagUsage] is true, whatever status the
    authority reported. *)
Theorem derivedStatus_UNAUTHORIZED_iff this w response b :
  this < length (heap w) →
  fst (ping (env w)) = Normal response →
  fst (check (default ∅ (flags <$> (response ≫= data))) (env w)) = Normal b →
  let w' := snd (initialize_with LICENSE_KEY ping check this w) in
  ∃ r,
    heap w' !! this = Some (Some r) ∧
    (writable (env w) = true →
     file w' = Some (JSON_stringify (TCachedLicense_toJSON r))) ∧
    (derivedStatus r = UNAUTHORIZED ↔ unauthorizedFlagUsage r = true).
Proof.
  intros Hthis Hp Hc.
  rewrite (initialize_with_normal this w response b Hp Hc).
  cbn [snd heap file].
  eexists. split; [|split].
  - apply list_lookup_insert_eq. by rewrite seeded_length.
  - intros ->. reflexivity.
  - cbn [derivedStatus unauthorizedFlagUsage]. unfold derive.
    destruct b, (response ≫= data); split; (done || discriminate).
Qed.

(** C4: when the remote call throws and a record was loaded from the file,
    the cycle returns normally, the object holds exactly that record (its
    [lastChecked] is the loaded one, not the current time),
    [getCachedLicense] returns it, and the file is as it was. *)
Theorem unreachable_keeps_cache this w prior e :
  this < length (heap w) →
  fst (loadFromFile w) = Normal (Some prior) →
  fst (ping (env w)) = Throw e →
  let w' := snd (initialize_with LICENSE_KEY ping check this w) in
  fst (initialize_with LICENSE_KEY ping check this w) = Normal () ∧
  heap w' !! this = Some (Some prior) ∧
  (∀ r, heap w' !! this = Some (Some r) → lastChecked r = lastChecked prior) ∧
  fst (getCachedLicense this w') = Normal (Some prior) ∧
  file w' = file w.
Proof.
  intros Hthis Hload Hp.
  rewrite (initialize_with_throw this w e Hp). rewrite Hload.
  cbn [fst snd heap file].
  assert (Hslot : <[this := Some prior]> (heap w) !! this = Some (Some prior))
    by by apply list_lookup_insert_eq.
  repeat split; try done.
  - intros r Hr. rewrite Hslot in Hr. by injection Hr as ->.
  - unfold getCachedLicense, mbind, M_bind, read_cachedLicense, mret, M_ret.
    cbn [heap]. rewrite Hslot. reflexivity.
Qed.

(** X1: when the remote call throws, no record could be loaded from the
    file and the object holds none, it still holds none after the cycle and
    [getCachedLicense] returns absent. *)
Theorem unreachable_without_cache this w e :
  heap w !! this = Some None →
  fst (loadFromFile w) = Normal None →
  fst (ping (env w)) = Throw e →
  let w' := snd (initialize_with LICENSE_KEY ping check this w) in
  heap w' !! this = Some None ∧
  fst (getCachedLicense this w') = Normal None ∧
  file w' = file w.
Proof.
  intros Hslot Hload Hp.
  rewrite (initialize_with_throw this w e Hp). rewrite Hload.
  cbn [fst snd heap file]. split; [done|]. split; [|done].
  unfold getCachedLicense, mbind, M_bind, read_cachedLicense, mret, M_ret.
  cbn [heap]. rewrite Hslot. cbn [default].
  rewrite loadFromFile_run. cbn [fst].
  rewrite <- Hload. by apply loadFromFile_ext.
Qed.

(** X2: the precedence of C1 has the last word also when there is no
    license: a cycle whose remote call returned nothing and whose policy
    check reported usage stores a record without license whose
    [derivedStatus] is UNAUTHORIZED, not NOT_FOUND. *)
Theorem usage_without_license_is_UNAUTHORIZED this w :
  this < length (heap w) →
  fst (ping (env w)) = Normal None →
  fst (check ∅ (env w)) = Normal true →
  ∃ r,
    heap (snd (initialize_with LICENSE_KEY ping check this w)) !! this
      = Some (Some r) ∧
    license r = None ∧
    derivedStatus r = UNAUTHORIZED.
Proof.
  intros Hthis Hp Hc.
  rewrite (initialize_with_normal this w None true Hp Hc). cbn [snd heap].
  eexists. split; [apply list_lookup_insert_eq; by rewrite seeded_length|].
  split; reflexivity.
Qed.

(* ===================================================================== *)
(** ** The entry points: [start] and [resync] *)
(* ===================================================================== *)

Lemma start_with_registered w a :
  registered w = Some a →
  start_with LICENSE_KEY ping check w = (Normal (), w).
Proof.
  intros H. unfold start_with, mbind, M_bind, read_registered.
  rewrite H. reflexivity.
Qed.

Lemma start_with_fresh w :
  registered w = None →
  start_with LICENSE_KEY ping check w =
  let w0 := mkWorld (env w) (file w) (console w) (heap w ++ [None])
                    (Some (length (heap w))) in
  match initialize_with LICENSE_KEY ping check (length (heap w)) w0 with
  | (Normal _, w') => (Normal (), w')
  | (Throw err, w') => (Normal (), say_all [FailedToVerify err] w')
  end.
Proof.
  intros H. unfold start_with, mbind, M_bind, read_registered.
  rewrite H.
  unfold new_LicenseClient, write_registered, try, mret, M_ret, say, say_all.
  cbn [env file console heap registered].
  destruct (initialize_with _ _ _ _ _) as [[[]|err] w']; reflexivity.
Qed.

Lemma initialize_with_registered this w :
  registered (snd (initialize_with LICENSE_KEY ping check this w))
  = registered w.
Proof.
  destruct (fst (ping (env w))) as [response|e] eqn:Hp.
  - destruct (fst (check (default ∅ (flags <$> (response ≫= data))) (env w)))
      as [b|e] eqn:Hc.
    + by rewrite (initialize_with_normal _ _ _ _ Hp Hc).
    + by rewrite (initialize_with_check_throw _ _ _ _ Hp Hc).
  - by rewrite (initialize_with_throw _ _ _ Hp).
Qed.

End Reconciler.

(** C7, as the code has it: [start] returns normally and leaves a client
    registered whatever the file system, the remote call and the policy
    check do (what the first cycle throws is caught and logged by [start]);
    [resync] returns normally whatever the file system and the remote call
    do.  A failed remote call is logged (a warning, then the error) and a
    failed write is logged; a failed read is not logged: it counts as no
    cache. *)
Theorem entry_points_return_normally ping check this w :
  (fst (start_with LICENSE_KEY ping check w) = Normal () ∧
   is_Some (registered (snd (start_with LICENSE_KEY ping check w)))) ∧
  fst (resync_with LICENSE_KEY ping checkUnauthorizedFlagUsage this w)
    = Normal () ∧
  (∀ e, fst (readFile w) = Throw e → loadFromFile w = (Normal None, w)) ∧
  (∀ e, fst (ping (env w)) = Throw e →
     let w' := snd (resync_with LICENSE_KEY ping checkUnauthorizedFlagUsage
                      this w) in
     ServerNotResponding ∈ console w' ∧ ErrorObject e ∈ console w') ∧
  (∀ response,
     fst (ping (env w)) = Normal response → writable (env w) = false →
     FailedToSave (Error "EACCES")
       ∈ console (snd (resync_with LICENSE_KEY ping checkUnauthorizedFlagUsage
                         this w))) ∧
  (∀ response e,
     registered w = None →
     fst (ping (env w)) = Normal response →
     fst (check (default ∅ (flags <$> (response ≫= data))) (env w)) = Throw e →
     FailedToVerify e ∈ console (snd (start_with LICENSE_KEY ping check w))).
Proof.
  split; [|split; [|split; [|split; [|split]]]].
  - destruct (registered w) as [a|] eqn:Hreg.
    + rewrite (start_with_registered _ _ w a Hreg). cbn [fst snd].
      rewrite Hreg. eauto.
    + rewrite (start_with_fresh _ _ w Hreg). cbn zeta.
      set (w0 := mkWorld _ _ _ _ _).
      pose proof (initialize_with_registered ping check (length (heap w)) w0)
        as Hr.
      destruct (initialize_with _ _ _ _ _) as [[[]|err] w'];
        cbn [fst snd] in *; (split; [reflexivity|]);
        cbn [say_all registered]; rewrite Hr; cbn; eauto.
  - unfold resync_with.
    destruct (fst (ping (env w))) as [response|e] eqn:Hp.
    + by rewrite (initialize_with_normal ping checkUnauthorizedFlagUsage
                    this w response false Hp eq_refl).
    + by rewrite (initialize_with_throw _ _ _ _ _ Hp).
  - intros e. unfold loadFromFile, mbind, M_bind, try, readFile, mret, M_ret.
    destruct (readable (env w)); [destruct (file w)|]; (done || reflexivity).
  - intros e Hp w'. subst w'. unfold resync_with.
    rewrite (initialize_with_throw _ _ _ _ _ Hp). cbn [snd console].
    split; listed.
  - intros response Hp Hw. unfold resync_with.
    rewrite (initialize_with_normal ping checkUnauthorizedFlagUsage
               this w response false Hp eq_refl).
    cbn [snd console]. rewrite Hw. listed.
  - intros response e Hreg Hp Hc.
    rewrite (start_with_fresh _ _ w Hreg). cbn zeta.
    set (w0 := mkWorld _ _ _ _ _).
    rewrite (initialize_with_check_throw ping check (length (heap w)) w0
               response e Hp Hc).
    cbn [snd say_all console]. listed.
Qed.

(* ===================================================================== *)
(** ** The methods of the sources: the bypassed remote call and check *)
(* ===================================================================== *)


Lemma pingLicenseServer_run e :
  pingLicenseServer LICENSE_KEY e =
  if truthy LICENSE_KEY
  then (Normal (Some (mock_response (default ""%string LICENSE_KEY))),
        [BypassingServer])
  else (Normal None, []).
Proof.
  unfold pingLicenseServer. destruct (truthy LICENSE_KEY); reflexivity.
Qed.

(** A cycle of the sources always runs to its end. *)
Lemma initialize_run this w :
  let response :=
    if truthy LICENSE_KEY
    then Some (mock_response (default ""%string LICENSE_KEY))
    else None in
  let r := {| lastChecked := toISOString (now (env w));
              license := response ≫= data;
              requestedLicenseKey := LICENSE_KEY;
              unauthorizedFlagUsage := false;
              derivedStatus := derive response false |} in
  fst (initialize LICENSE_KEY this w) = Normal () ∧
  registered (snd (initialize LICENSE_KEY this w)) = registered w ∧
  file (snd (initialize LICENSE_KEY this w)) =
    (if writable (env w) then Some (JSON_stringify (TCachedLicense_toJSON r))
     else file w) ∧
  (this < length (heap w) →
   heap (snd (initialize LICENSE_KEY this w)) !! this = Some (Some r)) ∧
  (∃ evs, console (snd (initialize LICENSE_KEY this w)) =
          console w ++ (CheckingLicense :: evs) ∧
          cycles evs = 0 ∧
          (ServerNotResponding ∉ evs) ∧
          (writable (env w) = false → FailedToSave (Error "EACCES") ∈ evs)).
Proof.
  intros response r. unfold initialize.
  assert (Hp : fst (pingLicenseServer LICENSE_KEY (env w)) = Normal response).
  { rewrite pingLicenseServer_run. subst response.
    destruct (truthy LICENSE_KEY); reflexivity. }
  rewrite (initialize_with_normal (pingLicenseServer LICENSE_KEY)
             checkUnauthorizedFlagUsage this w response false Hp eq_refl).
  cbn [fst snd env file heap registered console].
  repeat split.
  - intros Hthis. apply list_lookup_insert_eq. by rewrite seeded_length.
  - eexists. split; [reflexivity|].
    rewrite pingLicenseServer_run. cbn [checkUnauthorizedFlagUsage snd].
    destruct (truthy LICENSE_KEY), (writable (env w)); cbn;
      (split; [done|split; [unlisted|]]); try done; intros _; listed.
Qed.






(** C8: without a license key (undefined, or the empty string)
    [pingLicenseServer] returns null at once: a normal return, not a throw,
    that logs nothing and requests nothing; the cycle then stores a record
    without license, NOT_FOUND, with [unauthorizedFlagUsage] false. *)
Theorem no_key_NOT_FOUND this w :
  truthy LICENSE_KEY = false →
  this < length (heap w) →
  pingLicenseServer LICENSE_KEY (env w) = (Normal None, []) ∧
  ∃ r,
    heap (snd (initialize LICENSE_KEY this w)) !! this = Some (Some r) ∧
    license r = None ∧
    derivedStatus r = NOT_FOUND ∧
    unauthorizedFlagUsage r = false.
Proof.
  intros Hkey Hthis. split.
  - rewrite pingLicenseServer_run, Hkey. reflexivity.
  - destruct (initialize_run this w) as (_ & _ & _ & Hheap & _).
    rewrite Hkey in Hheap. eexists. split; [exact (Hheap Hthis)|]. done.
Qed.

(** C10, as the code has it: with a license key, [pingLicenseServer]
    returns, whatever the environment, one and the same response: success,
    ACTIVE, the configured key, the six flags true.  So the cycle never
    takes the fallback for an unreachable server; it returns normally and
    stores in the object a fresh record with that license, ACTIVE, checked
    at the current time.  The file holds that record when the write
    succeeds; when it fails the file is left as it was and the failure is
    logged. *)
Theorem configured_key_ACTIVE k this w :
  LICENSE_KEY = Some k → k ≠ ""%string →
  this < length (heap w) →
  let w' := snd (initialize LICENSE_KEY this w) in
  ∃ d,
    (∀ e, pingLicenseServer LICENSE_KEY e =
          (Normal (Some (mkResponse true (Some d))), [BypassingServer])) ∧
    status d = ACTIVE ∧
    licenseKey d = k ∧
    Forall (λ f, flags d !! f = Some true)
      ["emailDomains"; "embedAuthoring"; "embedAuthoringWhiteLabel"; "cfr21";
       "authenticationPortal"; "billing"]%string ∧
    fst (initialize LICENSE_KEY this w) = Normal () ∧
    (∃ evs, console w' = console w ++ evs ∧ (ServerNotResponding ∉ evs) ∧
            (writable (env w) = false → FailedToSave (Error "EACCES") ∈ evs)) ∧
    ∃ r,
      heap w' !! this = Some (Some r) ∧
      license r = Some d ∧
      derivedStatus r = REPORTED ACTIVE ∧
      unauthorizedFlagUsage r = false ∧
      lastChecked r = toISOString (now (env w)) ∧
      file w' = (if writable (env w)
                 then Some (JSON_stringify (TCachedLicense_toJSON r))
                 else file w).
Proof.
  intros Hk Hne Hthis w'. subst w'.
  assert (Ht : truthy LICENSE_KEY = true).
  { rewrite Hk. cbn. by destruct (String.eqb_spec k ""). }
  destruct (initialize_run this w)
    as (Hret & _ & Hfile & Hheap & (evs & Hcon & _ & Hdown & Hsave)).
  rewrite Ht in Hfile, Hheap.
  exists (mkLicense ACTIVE (mkDate 2024 1 1 0 0 0 0) "Enterprise License (Local)"
            (mkDate 2030 12 31 0 0 0 0) false k (flags (mock_license k))).
  split; [|split; [|split; [|split; [|split; [|split]]]]].
  - intros e. rewrite pingLicenseServer_run, Ht, Hk. reflexivity.
  - reflexivity.
  - reflexivity.
  - repeat constructor.
  - exact Hret.
  - exists (CheckingLicense :: evs). split; [exact Hcon|].
    split; [|intros Hw; specialize (Hsave Hw); listed].
    rewrite not_elem_of_cons. split; [discriminate|exact Hdown].
  - specialize (Hheap Hthis). rewrite Hk in Hfile, Hheap |- *.
    cbn [default] in *.
    eexists. split; [exact Hheap|]. repeat split. exact Hfile.
Qed.



(** X3: [getCachedLicense] reads only: the world is as before; it returns
    the record of the object when there is one, and otherwise what
    [loadFromFile] finds. *)
Theorem getCachedLicense_reads_only this w :
  snd (getCachedLicense this w) = w ∧
  fst (getCachedLicense this w) =
    match heap w !! this with
    | Some (Some c) => Normal (Some c)
    | _ => fst (loadFromFile w)
    end.
Proof.
  unfold getCachedLicense, mbind, M_bind, read_cachedLicense, mret, M_ret.
  destruct (heap w !! this) as [[c|]|]; cbn [default];
    try rewrite loadFromFile_run; split; reflexivity.
Qed.

End ClientFacts.

(* ===================================================================== *)
(** ** The theorems at work on the scenarios *)
(* ===================================================================== *)

Section Witnesses.
Import Json DateTime License Effects Client Scenario.

(** The date-only form the sources give [new Date]. *)
Example mock_dates :
  Date_parse "2024-01-01" = Some (mkDate 2024 1 1 0 0 0 0) ∧
  Date_parse "2030-12-31" = Some (mkDate 2030 12 31 0 0 0 0).
Proof. split; reflexivity. Qed.

(** [JSON.parse] on a few texts. *)
Example parse_empty_object : JSON_parse "{}" = Some (JObject []).
Proof. reflexivity. Qed.

Example parse_numbers :
  JSON_parse " [1.5e3, -0, true] "
  = Some (JArray [JNumber "1.5e3"; JNumber "-0"; JBool true]).
Proof. reflexivity. Qed.

Example parse_rejects :
  JSON_parse "stale" = None ∧ JSON_parse "[01]" = None ∧
  JSON_parse "{} {}" = None ∧ JSON_parse "" = None.
Proof. repeat split; reflexivity. Qed.

(** A file that is not JSON is no cache. *)
Example load_stale : fst (loadFromFile read_only_run) = Normal None.
Proof. reflexivity. Qed.

(** Scenario C: the authority says ACTIVE, the policy check finds usage. *)
Lemma initialize_derives_status_witness :
  0 < length (heap first_run) ∧
  fst (ping_active (env first_run)) = Normal (Some (mock_response "key-1")) ∧
  fst (check_usage ∅ (env first_run)) = Normal true ∧
  ∃ r,
    heap (snd (initialize_with (Some "key-1"%string) ping_active check_usage 0
                 first_run)) !! 0 = Some (Some r) ∧
    unauthorizedFlagUsage r = true ∧
    derivedStatus r = UNAUTHORIZED.
Proof.
  split; [cbn; lia|]. split; [reflexivity|]. split; [reflexivity|].
  exact (initialize_derives_status (Some "key-1"%string) ping_active check_usage
           0 first_run (Some (mock_response "key-1")) true
           ltac:(cbn; lia) eq_refl eq_refl).
Defined.

Lemma derivedStatus_UNAUTHORIZED_iff_witness :
  0 < length (heap first_run) ∧
  fst (ping_active (env first_run)) = Normal (Some (mock_response "key-1")) ∧
  ∃ r,
    heap (snd (initialize_with None ping_active checkUnauthorizedFlagUsage 0
                 first_run)) !! 0 = Some (Some r) ∧
    (writable (env first_run) = true →
     file (snd (initialize_with None ping_active checkUnauthorizedFlagUsage 0
                  first_run))
       = Some (JSON_stringify (TCachedLicense_toJSON r))) ∧
    (derivedStatus r = UNAUTHORIZED ↔ unauthorizedFlagUsage r = true).
Proof.
  split; [cbn; lia|]. split; [reflexivity|].
  exact (derivedStatus_UNAUTHORIZED_iff None ping_active
           checkUnauthorizedFlagUsage 0 first_run
           (Some (mock_response "key-1")) false
           ltac:(cbn; lia) eq_refl eq_refl).
Defined.


(** Scenario D: the call fails, the file holds an ACTIVE record of a
    previous run. *)
Lemma unreachable_keeps_cache_witness :
  0 < length (heap cached_run) ∧
  fst (loadFromFile cached_run) = Normal (Some prior_record) ∧
  fst (ping_down (env cached_run)) = Throw (Error "fetch failed") ∧
  let w' := snd (initialize_with (Some "key-1"%string) ping_down
                   checkUnauthorizedFlagUsage 0 cached_run) in
  fst (initialize_with (Some "key-1"%string) ping_down
         checkUnauthorizedFlagUsage 0 cached_run) = Normal () ∧
  heap w' !! 0 = Some (Some prior_record) ∧
  (∀ r, heap w' !! 0 = Some (Some r) → lastChecked r = lastChecked prior_record) ∧
  fst (getCachedLicense 0 w') = Normal (Some prior_record) ∧
  file w' = file cached_run.
Proof.
  assert (Hload : fst (loadFromFile cached_run) = Normal (Some prior_record))
    by (vm_compute; reflexivity).
  split; [cbn; lia|]. split; [exact Hload|]. split; [reflexivity|].
  exact (unreachable_keeps_cache (Some "key-1"%string) ping_down
           checkUnauthorizedFlagUsage 0 cached_run prior_record
           (Error "fetch failed") ltac:(cbn; lia) Hload eq_refl).
Defined.

Lemma unreachable_without_cache_witness :
  heap first_run !! 0 = Some None ∧
  fst (loadFromFile first_run) = Normal None ∧
  let w' := snd (initialize_with None ping_down checkUnauthorizedFlagUsage 0
                   first_run) in
  heap w' !! 0 = Some None ∧
  fst (getCachedLicense 0 w') = Normal None ∧
  file w' = file first_run.
Proof.
  split; [reflexivity|]. split; [reflexivity|].
  exact (unreachable_without_cache None ping_down checkUnauthorizedFlagUsage
           0 first_run (Error "fetch failed") eq_refl eq_refl eq_refl).
Defined.

Lemma usage_without_license_is_UNAUTHORIZED_witness :
  0 < length (heap first_run) ∧
  ∃ r,
    heap (snd (initialize_with None ping_none check_usage 0 first_run)) !! 0
      = Some (Some r) ∧
    license r = None ∧
    derivedStatus r = UNAUTHORIZED.
Proof.
  split; [cbn; lia|].
  exact (usage_without_license_is_UNAUTHORIZED None ping_none check_usage
           0 first_run ltac:(cbn; lia) eq_refl eq_refl).
Defined.



(** C7, where the specification says more than the code does: the license
    file does not exist, the read
    fails, both entry points return normally, and the console holds the
    ordinary lines of a cycle only: nothing about the failure. *)
Lemma read_failure_not_logged :
  fst (readFile first_run) = Throw (Error "ENOENT") ∧
  fst (resync None 0 first_run) = Normal () ∧
  console (snd (resync None 0 first_run)) =
    [CheckingLicense; BypassingFlagCheck; CheckCompleted; ReportUsage false;
     ReportDerivedStatus NOT_FOUND; ReportStatus None; ReportFlags ∅] ∧
  fst (readFile not_started) = Throw (Error "ENOENT") ∧
  fst (start None not_started) = Normal () ∧
  Forall (λ ev, level ev = LOG) (console (snd (start None not_started))).
Proof.
  split; [reflexivity|]. split; [reflexivity|]. split; [reflexivity|].
  split; [reflexivity|]. split; [reflexivity|].
  vm_compute. repeat constructor.
Qed.

(** The first cycle of [start] meets a policy check that throws; [resync]
    meets an authority that cannot be reached and a file it cannot write. *)
Lemma entry_points_return_normally_witness :
  fst (start_with None ping_active check_broken not_started) = Normal () ∧
  registered (snd (start_with None ping_active check_broken not_started))
    = Some 0 ∧
  FailedToVerify (Error "database unavailable")
    ∈ console (snd (start_with None ping_active check_broken not_started)) ∧
  fst (resync_with None ping_down checkUnauthorizedFlagUsage 0 read_only_run)
    = Normal () ∧
  ErrorObject (Error "fetch failed")
    ∈ console (snd (resync_with None ping_down checkUnauthorizedFlagUsage 0
                      read_only_run)).
Proof.
  pose proof (entry_points_return_normally None ping_active check_broken 0
                not_started) as ((Hs & _) & _ & _ & _ & _ & Hv).
  pose proof (entry_points_return_normally None ping_down check_broken 0
                read_only_run) as (_ & Hr & _ & Hd & _ & _).
  split; [exact Hs|]. split; [reflexivity|].
  split; [exact (Hv _ _ eq_refl eq_refl eq_refl)|].
  split; [exact Hr|]. exact (proj2 (Hd _ eq_refl)).
Defined.

Lemma no_key_NOT_FOUND_witness :
  truthy None = false ∧
  0 < length (heap first_run) ∧
  pingLicenseServer None (env first_run) = (Normal None, []) ∧
  ∃ r,
    heap (snd (initialize None 0 first_run)) !! 0 = Some (Some r) ∧
    license r = None ∧
    derivedStatus r = NOT_FOUND ∧
    unauthorizedFlagUsage r = false.
Proof.
  split; [reflexivity|]. split; [cbn; lia|].
  exact (no_key_NOT_FOUND None 0 first_run eq_refl ltac:(cbn; lia)).
Defined.

Lemma save_load_round_trip_witness :
  TCachedLicense_valid prior_record = true ∧
  writable (env first_run) = true ∧
  readable (env first_run) = true ∧
  fst (saveToFile prior_record first_run) = Normal () ∧
  fst (loadFromFile (snd (saveToFile prior_record first_run)))
    = Normal (Some prior_record).
Proof.
  split; [reflexivity|]. split; [reflexivity|]. split; [reflexivity|].
  exact (save_load_round_trip prior_record first_run eq_refl eq_refl eq_refl).
Defined.

(** C10, where the specification says more than the code does: a key is
    configured, the file cannot be
    written; after the cycle the object holds the fresh ACTIVE record and
    the file still holds what it held, which is not that record. *)
Lemma read_only_file_not_replaced :
  truthy (Some "key-1"%string) = true ∧
  ∃ r,
    heap (snd (initialize (Some "key-1"%string) 0 read_only_run)) !! 0
      = Some (Some r) ∧
    derivedStatus r = REPORTED ACTIVE ∧
    file (snd (initialize (Some "key-1"%string) 0 read_only_run))
      = Some "stale"%string ∧
    JSON_stringify (TCachedLicense_toJSON r) ≠ "stale"%string.
Proof.
  split; [reflexivity|]. eexists.
  split; [vm_compute; reflexivity|]. split; [reflexivity|].
  split; [vm_compute; reflexivity|]. vm_compute. discriminate.
Qed.

Lemma configured_key_ACTIVE_witness :
  Some "key-1"%string = Some "key-1"%string ∧
  "key-1"%string ≠ ""%string ∧
  0 < length (heap first_run) ∧
  let w' := snd (initialize (Some "key-1"%string) 0 first_run) in
  ∃ d,
    (∀ e, pingLicenseServer (Some "key-1"%string) e =
          (Normal (Some (mkResponse true (Some d))), [BypassingServer])) ∧
    status d = ACTIVE ∧
    licenseKey d = "key-1"%string ∧
    Forall (λ f, flags d !! f = Some true)
      ["emailDomains"; "embedAuthoring"; "embedAuthoringWhiteLabel"; "cfr21";
       "authenticationPortal"; "billing"]%string ∧
    fst (initialize (Some "key-1"%string) 0 first_run) = Normal () ∧
    (∃ evs, console w' = console first_run ++ evs ∧
            (ServerNotResponding ∉ evs) ∧
            (writable (env first_run) = false →
             FailedToSave (Error "EACCES") ∈ evs)) ∧
    ∃ r,
      heap w' !! 0 = Some (Some r) ∧
      license r = Some d ∧
      derivedStatus r = REPORTED ACTIVE ∧
      unauthorizedFlagUsage r = false ∧
      lastChecked r = "2026-11-02T09:30:00.000Z"%string ∧
      file w' = Some (JSON_stringify (TCachedLicense_toJSON r)).
Proof.
  split; [reflexivity|]. split; [discriminate|]. split; [cbn; lia|].
  exact (configured_key_ACTIVE (Some "key-1"%string) "key-1" 0 first_run
           eq_refl ltac:(discriminate) ltac:(cbn; lia)).
Defined.

End Witnesses.
